(** * Self-inlining anonymous functions (SelfLambda.cpp)

    A shallow embedding of the template meta-program of SelfLambda.cpp:
    the syntax-tree types [I], [Arg], [Sum], [Prod], the combinators of
    [Exp], the inliner [Inline] and the two integration loops.

    C++ types are data here ([type]); instantiating a template is a
    function on [type] that returns [None] where the C++ program would
    not build.  Run-time values are [value]s: an [int], a [double]
    (IEEE 754 binary64, Rocq's primitive floats) or an object of one of
    the stateless node classes.  [Exp<T>], [Dummy<T>] and [Inline<E>] are
    never template arguments or operand types in the program and are not
    in [type]; they appear through their members. *)

From Stdlib Require Import ZArith Bool List Lia Floats.
From stdpp Require Import base option numbers.

Local Open Scope Z_scope.

(** ** Types *)

(** The types the program manipulates: the two arithmetic types it names
    and the class templates [I<i>], [Arg<T>], [Sum<R1,R2>], [Prod<R1,R2>]. *)
Inductive type : Type :=
| Int
| Double
| I (i : Z)
| Arg (T : type)
| Sum (R1 R2 : type)
| Prod (R1 R2 : type).

#[global] Instance type_eq_dec : EqDecision type.
Proof. solve_decision. Defined.

(** [int] and [double]. *)
Definition is_arith (T : type) : bool :=
  match T with
  | Int | Double => true
  | _ => false
  end.

(** The classes that derive from [Exp<T>] (lines 68-80). *)
Definition is_node (T : type) : bool :=
  match T with
  | I _ | Arg _ | Sum _ _ | Prod _ _ => true
  | Int | Double => false
  end.


(** ** Values *)

Inductive value : Type :=
| VInt (z : Z)
| VDouble (d : float)
| VObj (T : type).

Definition type_of (v : value) : type :=
  match v with
  | VInt _ => Int
  | VDouble _ => Double
  | VObj T => T
  end.

(** *** [int]: 32 bits, two's complement *)

Definition INT_MIN : Z := - 2 ^ 31.
Definition INT_MAX : Z := 2 ^ 31 - 1.

Definition in_int (z : Z) : bool := (INT_MIN <=? z) && (z <=? INT_MAX).

(** Signed overflow is undefined in C++; the model takes the wrap-around
    of the usual targets. *)
Definition wrap (z : Z) : Z := (z + 2 ^ 31) mod 2 ^ 32 - 2 ^ 31.

(** *** Conversions between [int] and [double] *)

(** [int] to [double]: exact, every 32-bit integer is representable. *)
Definition int_to_double (z : Z) : float :=
  if z <? 0 then PrimFloat.opp (PrimFloat.of_uint63 (Uint63.of_Z (- z)))
  else PrimFloat.of_uint63 (Uint63.of_Z z).

(** Truncation toward zero of a finite float. *)
Definition trunc (d : float) : option Z :=
  match Prim2SF d with
  | S754_zero _ => Some 0
  | S754_finite s m e =>
      let mag := if 0 <=? e then Z.pos m * 2 ^ e else Z.pos m / 2 ^ (- e) in
      Some (if s then - mag else mag)
  | S754_infinity _ | S754_nan => None
  end.

(** [double] to [int]: the fractional part is discarded.  Out of range
    (and for infinities and NaN) C++ leaves the result undefined; the model
    takes [INT_MIN], the result of the x86-64 conversion instruction. *)
Definition double_to_int (d : float) : Z :=
  match trunc d with
  | Some z => if in_int z then z else INT_MIN
  | None => INT_MIN
  end.

(** Implicit conversion exists: identity, or between arithmetic types.  The
    node classes have no converting constructor and no conversion operator. *)
Definition convertible (from to : type) : bool :=
  bool_decide (from = to) || (is_arith from && is_arith to).

(** The implicit conversion of [v] to type [to] (where it exists). *)
Definition convert (to : type) (v : value) : value :=
  match to, v with
  | Double, VInt z => VDouble (int_to_double z)
  | Int, VDouble d => VInt (double_to_int d)
  | _, _ => v
  end.

(** ** The built-in arithmetic operators *)

Inductive op : Type := Plus | Times.

Definition int_op (o : op) (a b : Z) : Z :=
  match o with
  | Plus => wrap (a + b)
  | Times => wrap (a * b)
  end.

Definition double_op (o : op) (a b : float) : float :=
  match o with
  | Plus => PrimFloat.add a b
  | Times => PrimFloat.mul a b
  end.

(** The usual arithmetic conversions: [int] with [int] stays [int],
    anything with a [double] is computed in [double]. *)
Definition arith_type (L R : type) : option type :=
  match L, R with
  | Int, Int => Some Int
  | Int, Double | Double, Int | Double, Double => Some Double
  | _, _ => None
  end.

(** ** [Dummy]: a value of any type (lines 45-48) *)

(** [Dummy<T>::value] is declared ([static T value], line 47) and defined
    nowhere: there is no storage behind it and nothing to read from it.
    For a node class, which has no member, copying it reads nothing and
    gives the object of that class.  For [int] or [double] a program that
    copies it does not link; the object the model returns is then no value
    of the type ([has_type] is false for it). *)
Definition Dummy_value (T : type) : value := VObj T.

(** ** [Exp]: the combinators (lines 52-66) *)

(** [node o T M] is the class the operator [o] of [Exp<T>] returns for an
    operand of type [M]. *)
Definition node (o : op) (T M : type) : type :=
  match o with
  | Plus => Sum T M
  | Times => Prod T M
  end.

Module Exp.

(** [template <typename M> Prod<T,M> operator * (M m)]: [M] is deduced
    from the operand; neither [this] nor [m] is read. *)
Definition operator_times (T : type) (this m : value) : value :=
  Dummy_value (Prod T (type_of m)).

(** [template <typename M> Sum<T,M> operator + (M m)]. *)
Definition operator_plus (T : type) (this m : value) : value :=
  Dummy_value (Sum T (type_of m)).

Definition operator (o : op) : type -> value -> value -> value :=
  match o with
  | Plus => operator_plus
  | Times => operator_times
  end.

End Exp.

(** [static I<i> v] (line 70). *)
Definition I_v (i : Z) : value := VObj (I i).

(** ** Expressions [l + r] and [l * r] *)

(** Overload resolution for [l o r] on the static types of the operands:
    the built-in operator for two arithmetic types; for a left operand of
    a node class [L], the member template inherited from [Exp<L>], which
    takes any operand by value; nothing else (an arithmetic left operand
    with an object on the right has no candidate).  The result is the type
    of the expression, [None] when it does not build. *)
Definition binop_type (o : op) (L R : type) : option type :=
  if is_node L then Some (node o L R) else arith_type L R.

(** The value of [l o r]. *)
Definition binop (o : op) (x y : value) : value :=
  match x, y with
  | VInt a, VInt b => VInt (int_op o a b)
  | VInt a, VDouble b => VDouble (double_op o (int_to_double a) b)
  | VDouble a, VInt b => VDouble (double_op o a (int_to_double b))
  | VDouble a, VDouble b => VDouble (double_op o a b)
  | VObj T, _ => Exp.operator o T x y
  | _, VObj _ => x (* no such operator: [binop_type] is [None] *)
  end.

(** ** [lambda]: sugar (lines 128-133) *)

(** [return Dummy<T>::value] for the type [T] of the body; neither
    argument is read. *)
Definition lambda (arg body : value) : value := Dummy_value (type_of body).

(** ** [Inline]: the inliner (lines 84-124) *)

(** A resolved member function: its return type and the arithmetic it
    expands to. *)
Definition resolved : Type := type * (value -> value).

(** The member names the specialisations of [Inline] declare. *)
Inductive member : Type := member_at | member_value.

(** What each specialisation of [Inline<E>] declares: the primary template
    is empty, the one for constants declares [value], the other three
    declare [at]. *)
Definition Inline_members (E : type) : list member :=
  match E with
  | I _ => [member_value]
  | Arg _ | Sum _ _ | Prod _ _ => [member_at]
  | Int | Double => []
  end.

(** [Inline<E>::value(arg)] for an argument of type [A]: declared by the
    specialisation for [I<i>] only, as [int value (int arg)]. *)
Definition Inline_value (E A : type) : option resolved :=
  match E with
  | I i => if convertible A Int then Some (Int, fun arg => VInt i) else None
  | _ => None
  end.

(** The body shared by the specialisations for [Sum] and [Prod]:
    [return Inline<E1>::at(arg) o Inline<E2>::at(arg)] in a function
    declared [A at (A arg)].  Both calls must resolve, the operator must
    exist for their return types and its result must convert to [A]. *)
Definition Inline_binary (o : op) (r1 r2 : option resolved) (A : type)
  : option resolved :=
  '(R1, at1) ← r1;
  '(R2, at2) ← r2;
  R ← binop_type o R1 R2;
  if convertible R A
  then Some (A, fun arg => convert A (binop o (at1 arg) (at2 arg)))
  else None.

(** [Inline<E>::at(arg)] for an argument of type [A]: [None] when the call
    does not build, otherwise the return type and the function on values.

    - primary template and [I<i>]: no member [at];
    - [Arg<X1>]: [X1 at (X1 arg)], the argument is converted to [X1];
    - [Sum<E1,E2>], [Prod<E1,E2>]: [template <typename A> A at (A arg)]. *)
Fixpoint Inline_at (E A : type) : option resolved :=
  match E with
  | Int | Double => None
  | I _ => None
  | Arg X1 =>
      if convertible A X1 then Some (X1, fun arg => convert X1 arg) else None
  | Sum E1 E2 => Inline_binary Plus (Inline_at E1 A) (Inline_at E2 A) A
  | Prod E1 E2 => Inline_binary Times (Inline_at E1 A) (Inline_at E2 A) A
  end.

(** Evaluating the expression type [E] at the value [v]: the call
    [Inline<E>::at(v)], resolved at the type of [v]; [None] when it does
    not build. *)
Definition evaluate (E : type) (v : value) : option value :=
  '(R, at_E) ← Inline_at E (type_of v);
  Some (at_E v).

(** *** The recursion of the inliner *)

(** The resolutions the body of [Inline<E>::at] calls: the two operands of
    a sum or a product (lines 111 and 122); the body for an argument
    (line 101) calls none, and the other types have no [at]. *)
Definition callees (E : type) : list type :=
  match E with
  | Sum E1 E2 | Prod E1 E2 => [E1; E2]
  | _ => []
  end.



(** ** The integration loops (lines 138-164) *)

(** The [double] a value is stored as by [double y = ...]. *)
Definition to_double (v : value) : float :=
  match convert Double v with
  | VDouble d => d
  | _ => PrimFloat.zero
  end.

(** The variables of the loop. *)
Record loop_state : Type := LoopState { i_ : Z; x_ : float; area_ : float }.

(** One round: the body, then [++i, x += delta] ([i < n] holds, so [++i]
    does not overflow). *)
Definition loop_body (f : float -> float) (delta : float) (s : loop_state)
  : loop_state :=
  let y := f (x_ s) in
  {| i_ := i_ s + 1;
     x_ := PrimFloat.add (x_ s) delta;
     area_ := PrimFloat.add (area_ s) (PrimFloat.mul y delta) |}.

(** [for (...; i < n; ...)], at most [fuel] rounds. *)
Fixpoint loop (fuel : nat) (f : float -> float) (delta : float) (n : Z)
    (s : loop_state) : loop_state :=
  match fuel with
  | O => s
  | S fuel' =>
      if i_ s <? n then loop fuel' f delta n (loop_body f delta s) else s
  end.

(** [integrate_fp]: the integrand is called through a pointer. *)
Definition integrate_fp (f : float -> float) (a b : float) (n : Z) : float :=
  let delta := PrimFloat.div (PrimFloat.sub b a) (int_to_double n) in
  let s0 := {| i_ := 0; x_ := a; area_ := PrimFloat.zero |} in
  area_ (loop (Z.to_nat n) f delta n s0).

(** [integrate<F>]: the integrand is [Inline<F>::at], called on a [double]
    and stored in a [double]; [None] when that does not build. *)
Definition integrate (F : type) : option (float -> float -> Z -> float) :=
  '(R, at_F) ← Inline_at F Double;
  if convertible R Double
  then Some (fun a b n =>
    let delta := PrimFloat.div (PrimFloat.sub b a) (int_to_double n) in
    let s0 := {| i_ := 0; x_ := a; area_ := PrimFloat.zero |} in
    area_ (loop (Z.to_nat n) (fun x => to_double (at_F (VDouble x)))
                delta n s0))
  else None.

(** [square] (lines 167-169). *)
Definition square (x : float) : float := PrimFloat.mul x x.

(** The placeholder of [main]: [Arg<double> x]. *)
Definition x : value := VObj (Arg Double).

(** [main]: the area printed, when the program builds. *)
Definition main_area : option float :=
  area ← integrate (type_of (lambda x (binop Times x x)));
  Some (area PrimFloat.zero PrimFloat.one 10000).

(** ** Typing of values *)

(** [v] is a value of type [T]: an [int] in range, a [double], or an object
    of a node class. *)
Definition has_type (v : value) (T : type) : bool :=
  match v with
  | VInt z => bool_decide (T = Int) && in_int z
  | VDouble _ => bool_decide (T = Double)
  | VObj T' => bool_decide (T = T') && is_node T'
  end.

(** ** Which expressions resolve *)

(** A constant occurs among the nodes of the tree. *)
Fixpoint has_constant (E : type) : bool :=
  match E with
  | I _ => true
  | Sum E1 E2 | Prod E1 E2 => has_constant E1 || has_constant E2
  | _ => false
  end.

(** A tree of sums and products whose leaves are arguments of arithmetic
    type. *)
Fixpoint arith_tree (E : type) : bool :=
  match E with
  | Arg X => is_arith X
  | Sum E1 E2 | Prod E1 E2 => arith_tree E1 && arith_tree E2
  | _ => false
  end.

(** The expressions over [Arg], [Sum] and [Prod] that resolve at [A]. *)
Definition resolvable (E A : type) : bool :=
  match E with
  | Arg X => convertible A X
  | Sum _ _ | Prod _ _ => is_arith A && arith_tree E
  | _ => false
  end.

(** ** The arithmetic an expression spells *)

(** Every placeholder of the tree is an [Arg<A>], and there is no constant. *)
Fixpoint placeholders_of (A E : type) : bool :=
  match E with
  | Arg X => bool_decide (X = A)
  | Sum E1 E2 | Prod E1 E2 => placeholders_of A E1 && placeholders_of A E2
  | _ => false
  end.

(** The expression of the tree written by hand on the argument [v], with
    the operators of C++ and nothing else. *)
Fixpoint written_out (E : type) (v : value) : value :=
  match E with
  | Sum E1 E2 => binop Plus (written_out E1 v) (written_out E2 v)
  | Prod E1 E2 => binop Times (written_out E1 v) (written_out E2 v)
  | _ => v
  end.

(** The same as a function [double f (double x)], like [square]. *)
Fixpoint by_hand (E : type) (x : float) : float :=
  match E with
  | Sum E1 E2 => PrimFloat.add (by_hand E1 x) (by_hand E2 x)
  | Prod E1 E2 => PrimFloat.mul (by_hand E1 x) (by_hand E2 x)
  | _ => x
  end.

(** ** The sum the loops compute *)

(** The points the loop visits in [k] rounds from [x]: each is the previous
    one plus [delta]. *)
Fixpoint sample_points (k : nat) (x delta : float) : list float :=
  match k with
  | O => []
  | S k' => x :: sample_points k' (PrimFloat.add x delta) delta
  end.

(** The areas of the rectangles over the points [xs], added in order. *)
Definition rectangle_sum (f : float -> float) (delta : float)
    (xs : list float) : float :=
  fold_left (fun area x => PrimFloat.add area (PrimFloat.mul (f x) delta))
            xs PrimFloat.zero.

(** * Properties *)

(** ** Values and conversions *)

Lemma wrap_in_int z : in_int (wrap z) = true.
Proof.
  unfold in_int, wrap, INT_MIN, INT_MAX.
  pose proof (Z.mod_pos_bound (z + 2 ^ 31) (2 ^ 32) eq_refl).
  apply andb_true_iff; split; apply Z.leb_le; lia.
Qed.

Lemma wrap_id z : in_int z = true -> wrap z = z.
Proof.
  unfold in_int, wrap, INT_MIN, INT_MAX.
  intros [H1 H2]%andb_true_iff. apply Z.leb_le in H1, H2.
  rewrite Z.mod_small; lia.
Qed.

Lemma double_to_int_in_int d : in_int (double_to_int d) = true.
Proof.
  unfold double_to_int.
  destruct (trunc d) as [z|]; [destruct (in_int z) eqn:Hz|]; auto.
Qed.

Lemma has_type_type_of v T : has_type v T = true -> type_of v = T.
Proof.
  destruct v; simpl; intros H.
  - apply andb_true_iff in H as [H _]. apply bool_decide_eq_true in H. auto.
  - apply bool_decide_eq_true in H. auto.
  - apply andb_true_iff in H as [H _]. apply bool_decide_eq_true in H. auto.
Qed.

(** The canonical forms of the typed values. *)
Lemma has_type_inv v T :
  has_type v T = true ->
  (T = Int /\ exists z, v = VInt z /\ in_int z = true) \/
  (T = Double /\ exists d, v = VDouble d) \/
  (is_node T = true /\ v = VObj T).
Proof.
  destruct v; simpl.
  - intros [H1 H2]%andb_true_iff. apply bool_decide_eq_true in H1. eauto.
  - intros H%bool_decide_eq_true. eauto 6.
  - intros [H1 H2]%andb_true_iff. apply bool_decide_eq_true in H1.
    subst. auto.
Qed.

Lemma has_type_Dummy_value T :
  is_node T = true -> has_type (Dummy_value T) T = true.
Proof. intros H. simpl. rewrite bool_decide_eq_true_2, H; auto. Qed.

(** Converting a value to its own type copies it. *)
Lemma convert_same v T : type_of v = T -> convert T v = v.
Proof. intros <-. destruct v as [z|d|T]; [| |destruct T]; reflexivity. Qed.

Lemma convertible_refl T : convertible T T = true.
Proof. unfold convertible. rewrite bool_decide_eq_true_2; auto. Qed.

Lemma convertible_inv T U :
  convertible T U = true -> T = U \/ (is_arith T = true /\ is_arith U = true).
Proof.
  unfold convertible. intros [H|H]%orb_true_iff.
  - apply bool_decide_eq_true in H. auto.
  - apply andb_true_iff in H. auto.
Qed.

Lemma is_arith_not_node T : is_arith T = true -> is_node T = false.
Proof. destruct T; simpl; congruence. Qed.

Lemma has_type_convert v T U :
  has_type v T = true -> convertible T U = true ->
  has_type (convert U v) U = true.
Proof.
  intros Hv [->|[HT HU]]%convertible_inv.
  - rewrite convert_same; auto using has_type_type_of.
  - destruct (has_type_inv _ _ Hv) as [[-> (z & -> & Hz)]|[[-> [d ->]]|[Hn _]]].
    + destruct U; try discriminate; simpl; auto.
    + destruct U; try discriminate; simpl; auto.
      apply double_to_int_in_int.
    + rewrite (is_arith_not_node _ HT) in Hn. discriminate.
Qed.

(** ** Operators *)

Lemma node_is_node o T M : is_node (node o T M) = true.
Proof. destruct o; reflexivity. Qed.

Lemma type_of_Exp_operator o T this m :
  Exp.operator o T this m = VObj (node o T (type_of m)).
Proof. destruct o; reflexivity. Qed.

Lemma arith_type_inv L R T :
  arith_type L R = Some T ->
  is_arith L = true /\ is_arith R = true /\ is_arith T = true.
Proof.
  destruct L, R; simpl; intros H; inversion H; subst; auto.
Qed.

(** The value of [l o r] has the type overload resolution gives it. *)
Lemma has_type_binop o x y L R T :
  has_type x L = true -> has_type y R = true ->
  binop_type o L R = Some T ->
  has_type (binop o x y) T = true.
Proof.
  unfold binop_type. intros Hx Hy HT.
  destruct (has_type_inv _ _ Hx) as [[-> (a & -> & Ha)]|[[-> [a ->]]|[Hn ->]]].
  - simpl in HT.
    destruct (has_type_inv _ _ Hy) as [[-> (b & -> & Hb)]|[[-> [b ->]]|[Hm ->]]];
      simpl in HT; try (inversion HT; subst; reflexivity).
    + inversion HT; subst. simpl. destruct o; apply wrap_in_int.
    + destruct R; discriminate.
  - simpl in HT.
    destruct (has_type_inv _ _ Hy) as [[-> (b & -> & Hb)]|[[-> [b ->]]|[Hm ->]]];
      simpl in HT; try (inversion HT; subst; reflexivity).
    destruct R; discriminate.
  - rewrite Hn in HT. inversion HT; subst.
    assert (binop o (VObj L) y = VObj (node o L (type_of y))) as ->.
    { destruct L; try discriminate; apply type_of_Exp_operator. }
    rewrite (has_type_type_of _ _ Hy). simpl.
    rewrite bool_decide_eq_true_2, node_is_node; auto.
Qed.

(** A class that has itself as a template argument would be infinite. *)
Lemma node_neq_left o T M : node o T M <> T.
Proof.
  revert o M. induction T; intros o M H; destruct o; try discriminate;
    inversion H; subst.
  - eapply (IHT1 Plus); eauto.
  - eapply (IHT1 Times); eauto.
Qed.

(** ** The inliner *)

Lemma Inline_binary_Some o r1 r2 A R at_ :
  Inline_binary o r1 r2 A = Some (R, at_) ->
  exists R1 at1 R2 at2 R',
    r1 = Some (R1, at1) /\ r2 = Some (R2, at2) /\
    binop_type o R1 R2 = Some R' /\ convertible R' A = true /\
    R = A /\ at_ = fun arg => convert A (binop o (at1 arg) (at2 arg)).
Proof.
  unfold Inline_binary. intros H.
  destruct r1 as [[R1 at1]|]; [|discriminate].
  destruct r2 as [[R2 at2]|]; [|discriminate]. simpl in H.
  destruct (binop_type o R1 R2) as [R'|] eqn:HR'; [|discriminate]. simpl in H.
  destruct (convertible R' A) eqn:Hc; [|discriminate].
  inversion H; subst. eauto 12.
Qed.

(** A resolved call returns [A] itself or a type [A] converts to. *)
Lemma Inline_at_return E A R at_ :
  Inline_at E A = Some (R, at_) -> convertible A R = true.
Proof.
  destruct E; simpl; try discriminate.
  - destruct (convertible A E) eqn:Hc; [|discriminate].
    intros H; inversion H; subst; auto.
  - intros (? & ? & ? & ? & ? & _ & _ & _ & _ & -> & _)%Inline_binary_Some.
    apply convertible_refl.
  - intros (? & ? & ? & ? & ? & _ & _ & _ & _ & -> & _)%Inline_binary_Some.
    apply convertible_refl.
Qed.

(** Type soundness of the inlined arithmetic: on an argument of type [A]
    a resolved [at] returns a value of its return type. *)
Lemma Inline_at_sound E :
  forall A R at_,
    Inline_at E A = Some (R, at_) ->
    forall v, has_type v A = true -> has_type (at_ v) R = true.
Proof.
  assert (Hbin : forall o E1 E2 A,
    (forall R at_, Inline_at E1 A = Some (R, at_) ->
       forall v, has_type v A = true -> has_type (at_ v) R = true) ->
    (forall R at_, Inline_at E2 A = Some (R, at_) ->
       forall v, has_type v A = true -> has_type (at_ v) R = true) ->
    forall R at_,
      Inline_binary o (Inline_at E1 A) (Inline_at E2 A) A = Some (R, at_) ->
      forall v, has_type v A = true -> has_type (at_ v) R = true).
  { intros o E1 E2 A IH1 IH2 R at_ H v Hv.
    apply Inline_binary_Some in H
      as (R1 & at1 & R2 & at2 & R' & H1 & H2 & HR' & Hc & -> & ->).
    apply (has_type_convert _ R'); [|exact Hc].
    apply (has_type_binop o _ _ R1 R2); eauto. }
  induction E; intros A R at_ H; try discriminate H.
  - simpl in H. destruct (convertible A E) eqn:Hc; [|discriminate].
    inversion H; subst. intros v Hv. apply (has_type_convert _ A); auto.
  - exact (Hbin Plus E1 E2 A (IHE1 A) (IHE2 A) R at_ H).
  - exact (Hbin Times E1 E2 A (IHE1 A) (IHE2 A) R at_ H).
Qed.

(** Sums and products resolve at arithmetic argument types only. *)
Lemma Inline_binary_arith o E1 E2 A R at_ :
  Inline_binary o (Inline_at E1 A) (Inline_at E2 A) A = Some (R, at_) ->
  is_arith A = true.
Proof.
  intros (R1 & at1 & R2 & at2 & R' & H1 & H2 & HR' & Hc & _)%Inline_binary_Some.
  apply Inline_at_return in H1.
  unfold binop_type in HR'. destruct (is_node R1) eqn:Hn.
  - inversion HR'; subst.
    apply convertible_inv in H1 as [->|[_ Ha]].
    + apply convertible_inv in Hc as [Hc|[Hc _]].
      * apply node_neq_left in Hc. contradiction.
      * destruct o; discriminate.
    + rewrite (is_arith_not_node _ Ha) in Hn. discriminate.
  - apply arith_type_inv in HR' as (_ & _ & HR').
    apply convertible_inv in Hc as [<-|[_ Hc]]; auto.
Qed.

(** With arithmetic operand types the operator is the built-in one and
    its result converts to any arithmetic type. *)
Lemma Inline_binary_resolves o R1 at1 R2 at2 A :
  is_arith R1 = true -> is_arith R2 = true -> is_arith A = true ->
  Inline_binary o (Some (R1, at1)) (Some (R2, at2)) A =
  Some (A, fun arg => convert A (binop o (at1 arg) (at2 arg))).
Proof.
  intros H1 H2 HA. unfold Inline_binary, binop_type. simpl.
  rewrite (is_arith_not_node _ H1).
  destruct R1, R2; try discriminate; simpl;
    unfold convertible; rewrite HA; simpl; rewrite ?orb_true_r; reflexivity.
Qed.

(** At an arithmetic argument type the return type is arithmetic. *)
Lemma Inline_at_return_arith E A R at_ :
  is_arith A = true -> Inline_at E A = Some (R, at_) -> is_arith R = true.
Proof.
  intros HA [<-|[_ H]]%Inline_at_return%convertible_inv; auto.
Qed.

(** At an arithmetic argument type, exactly the trees of sums and products
    over arguments of arithmetic type resolve. *)
Lemma Inline_at_arith_tree A :
  is_arith A = true ->
  forall E, is_Some (Inline_at E A) <-> arith_tree E = true.
Proof.
  intros HA.
  assert (Hbin : forall o E1 E2,
    (is_Some (Inline_at E1 A) <-> arith_tree E1 = true) ->
    (is_Some (Inline_at E2 A) <-> arith_tree E2 = true) ->
    is_Some (Inline_binary o (Inline_at E1 A) (Inline_at E2 A) A) <->
    arith_tree E1 && arith_tree E2 = true).
  { intros o E1 E2 IH1 IH2. rewrite andb_true_iff, <- IH1, <- IH2. split.
    - intros [[R at_] H].
      apply Inline_binary_Some in H as (? & ? & ? & ? & ? & -> & -> & _).
      split; eexists; reflexivity.
    - intros [[[R1 at1] H1] [[R2 at2] H2]].
      rewrite H1, H2, Inline_binary_resolves;
        eauto using Inline_at_return_arith. }
  induction E; simpl; try (split; [intros [? ?]|]; discriminate).
  - unfold convertible. destruct (is_arith E) eqn:HE.
    + rewrite HA, orb_true_r. split; eauto.
    + rewrite andb_false_r, orb_false_r. destruct (bool_decide (A = E)) eqn:Hd.
      * apply bool_decide_eq_true in Hd. congruence.
      * split; [intros [? ?]|]; discriminate.
  - apply Hbin; auto.
  - apply Hbin; auto.
Qed.

(** Which trees over [Arg], [Sum] and [Prod] resolve, at any argument
    type. *)
Lemma Inline_at_resolvable E A :
  has_constant E = false ->
  is_Some (Inline_at E A) <-> resolvable E A = true.
Proof.
  assert (Hbin : forall o E1 E2,
    is_Some (Inline_binary o (Inline_at E1 A) (Inline_at E2 A) A) ->
    is_arith A = true).
  { intros o E1 E2 [[R at_] H]. eapply Inline_binary_arith; eauto. }
  destruct E; try discriminate; intros _.
  - simpl. split; [intros [? ?]|]; discriminate.
  - simpl. split; [intros [? ?]|]; discriminate.
  - simpl. destruct (convertible A E); split; intros H.
    + reflexivity.
    + eexists; reflexivity.
    + destruct H; discriminate.
    + discriminate.
  - unfold resolvable. rewrite andb_true_iff. split.
    + intros H. pose proof (Hbin Plus _ _ H) as HA.
      split; auto. apply (Inline_at_arith_tree A HA (Sum E1 E2)); auto.
    + intros [HA H]. apply (Inline_at_arith_tree A HA (Sum E1 E2)); auto.
  - unfold resolvable. rewrite andb_true_iff. split.
    + intros H. pose proof (Hbin Times _ _ H) as HA.
      split; auto. apply (Inline_at_arith_tree A HA (Prod E1 E2)); auto.
    + intros [HA H]. apply (Inline_at_arith_tree A HA (Prod E1 E2)); auto.
Qed.

(** A call of [at] resolves only in a specialisation that declares it. *)
Lemma Inline_at_member E A :
  is_Some (Inline_at E A) -> In member_at (Inline_members E).
Proof.
  destruct E; simpl; auto; intros [? ?]; discriminate.
Qed.

(** ** The loop *)

(** The loop depends on the integrand through its values only. *)
Lemma loop_ext fuel (f g : float -> float) delta n :
  (forall x, f x = g x) ->
  forall s, loop fuel f delta n s = loop fuel g delta n s.
Proof.
  intros Hfg. induction fuel as [|fuel IH]; intros s; simpl.
  - reflexivity.
  - destruct (i_ s <? n); [|reflexivity].
    unfold loop_body. rewrite Hfg. apply IH.
Qed.

(** [n - i] rounds are enough: the loop is left through its condition. *)
Lemma loop_exit fuel f delta n :
  forall s, n - i_ s <= Z.of_nat fuel ->
    (i_ (loop fuel f delta n s) <? n) = false.
Proof.
  induction fuel as [|fuel IH]; intros s Hs; simpl.
  - apply Z.ltb_ge. lia.
  - destruct (i_ s <? n) eqn:Hi; [|exact Hi].
    apply IH. simpl. lia.
Qed.

(** [integrate_fp] depends on the integrand through its values only. *)
Lemma integrate_fp_ext (f g : float -> float) :
  (forall x, f x = g x) ->
  forall a b n, integrate_fp f a b n = integrate_fp g a b n.
Proof.
  intros Hfg a b n. unfold integrate_fp. cbv zeta. f_equal.
  apply loop_ext, Hfg.
Qed.

(** [integrate<F>] is [integrate_fp] on the function [F] resolves to. *)
Lemma integrate_resolved F R at_F :
  Inline_at F Double = Some (R, at_F) -> is_arith R = true ->
  integrate F =
  Some (integrate_fp (fun x => to_double (at_F (VDouble x)))).
Proof.
  intros H HR. unfold integrate. rewrite H. simpl.
  unfold convertible. rewrite HR, orb_true_r. reflexivity.
Qed.

(** * The claims *)

(** ** Constants *)

(** C1.  For every constant [i] and argument type [A], the specialisation
    [Inline<I<i>>] declares [value] and no [at]: a call [Inline<I<i>>::at]
    does not build, nor does the resolution of any sum or product with a
    constant operand, whose body makes that call.  The member it does
    declare, [int value (int arg)], ignores its argument and returns
    [i]. *)
Theorem Inline_I_declares_value_only (i : Z) (A : type) :
  Inline_members (I i) = [member_value] /\
  Inline_at (I i) A = None /\
  (forall o E, Inline_at (node o (I i) E) A = None /\
               Inline_at (node o E (I i)) A = None) /\
  exists body, Inline_value (I i) Int = Some (Int, body) /\
               forall arg, body arg = VInt i.
Proof.
  repeat split.
  - destruct o; reflexivity.
  - destruct o; simpl; destruct (Inline_at E A) as [[? ?]|]; reflexivity.
  - eexists; split; reflexivity.
Qed.

(** [lambda(x, x + I<1>::v)] builds, and evaluating it at a [double] does
    not. *)
Example constant_in_sum :
  type_of (lambda x (binop Plus x (I_v 1))) = Sum (Arg Double) (I 1) /\
  Inline_at (Sum (Arg Double) (I 1)) Double = None /\
  integrate (Sum (Arg Double) (I 1)) = None.
Proof. repeat split. Qed.

(** ** Arguments *)

(** C3.  The resolver of [Arg<X1>], called on a value of type [X1],
    resolves to a function from [X1] to [X1] that returns its argument
    unchanged. *)
Theorem Inline_Arg_at_identity (X1 : type) (v : value) :
  has_type v X1 = true ->
  exists at_, Inline_at (Arg X1) X1 = Some (X1, at_) /\ at_ v = v.
Proof.
  intros Hv. simpl. rewrite convertible_refl. eexists; split; [reflexivity|].
  apply convert_same, has_type_type_of, Hv.
Qed.

Lemma Inline_Arg_at_identity_witness :
  exists at_,
    Inline_at (Arg Double) Double = Some (Double, at_) /\
    at_ (VDouble 0x1.8p+1) = VDouble 0x1.8p+1.
Proof.
  apply (Inline_Arg_at_identity Double (VDouble 0x1.8p+1)). reflexivity.
Defined.

(** ** Sums and products *)

(** C2, as stated, fails.  At an argument whose type is a class, here an
    [Arg<double>] object passed to placeholders declared for it, both
    operands evaluate and their sum builds, as the syntax tree
    [Sum<Arg<double>,Arg<double>>]; the evaluation of the sum of the two
    placeholders does not build, since that tree is no [Arg<double>] to
    return.  And at an arithmetic argument the result is returned in the
    type of the argument: two [Arg<int>] evaluated at the [double] 2.5
    give the [int]s 2 and 2, whose sum is the [int] 4, and the sum
    expression gives the [double] 4.0. *)
Lemma Sum_is_not_sum_of_operands :
  let X := Arg Double in
  let v := VObj X in
  has_type v X = true /\
  evaluate (Arg X) v = Some v /\
  binop_type Plus X X = Some (Sum X X) /\
  binop Plus v v = VObj (Sum X X) /\
  evaluate (Sum (Arg X) (Arg X)) v = None /\
  evaluate (Arg Int) (VDouble 0x1.4p+1) = Some (VInt 2) /\
  binop Plus (VInt 2) (VInt 2) = VInt 4 /\
  evaluate (Sum (Arg Int) (Arg Int)) (VDouble 0x1.4p+1) = Some (VDouble 4).
Proof. repeat split. Qed.

(** C2, amended.  At an argument [v] of an arithmetic type [A], evaluating
    [Sum<E1,E2>] builds exactly when evaluating [E1] and evaluating [E2]
    build, and yields the sum of the two results, formed by the operator
    of C++ and converted to [A]: the sum itself whenever it is computed in
    [A].  The same holds of [Prod<E1,E2>] and the product.  At an argument
    of a class type no sum and no product can be evaluated. *)
Theorem evaluate_Sum_Prod (E1 E2 A : type) (v : value) :
  has_type v A = true ->
  (is_arith A = true ->
   evaluate (Sum E1 E2) v =
     (a ← evaluate E1 v; b ← evaluate E2 v;
      Some (convert A (binop Plus a b))) /\
   evaluate (Prod E1 E2) v =
     (a ← evaluate E1 v; b ← evaluate E2 v;
      Some (convert A (binop Times a b))) /\
   forall a b, evaluate E1 v = Some a -> evaluate E2 v = Some b ->
     (type_of (binop Plus a b) = A ->
      evaluate (Sum E1 E2) v = Some (binop Plus a b)) /\
     (type_of (binop Times a b) = A ->
      evaluate (Prod E1 E2) v = Some (binop Times a b))) /\
  (is_arith A = false ->
   evaluate (Sum E1 E2) v = None /\ evaluate (Prod E1 E2) v = None).
Proof.
  intros Hv. pose proof (has_type_type_of _ _ Hv) as Ht.
  assert (Heq : forall o, is_arith A = true ->
    evaluate (node o E1 E2) v =
    (a ← evaluate E1 v; b ← evaluate E2 v; Some (convert A (binop o a b)))).
  { intros o HA. unfold evaluate. rewrite Ht.
    assert (Inline_at (node o E1 E2) A =
            Inline_binary o (Inline_at E1 A) (Inline_at E2 A) A) as ->
      by (destruct o; reflexivity).
    destruct (Inline_at E1 A) as [[R1 at1]|] eqn:H1; [|reflexivity].
    destruct (Inline_at E2 A) as [[R2 at2]|] eqn:H2; [|reflexivity].
    rewrite Inline_binary_resolves; eauto using Inline_at_return_arith. }
  assert (Hnone : forall o, is_arith A = false ->
    evaluate (node o E1 E2) v = None).
  { intros o HA. unfold evaluate. rewrite Ht.
    destruct (Inline_at (node o E1 E2) A) as [[R at_E]|] eqn:H; [|reflexivity].
    assert (Inline_binary o (Inline_at E1 A) (Inline_at E2 A) A
            = Some (R, at_E)) as H' by (destruct o; exact H).
    apply Inline_binary_arith in H'. congruence. }
  split.
  - intros HA. split; [exact (Heq Plus HA)|]. split; [exact (Heq Times HA)|].
    intros a b Ha Hb. split; intros Hab.
    + change (Sum E1 E2) with (node Plus E1 E2).
      rewrite (Heq Plus HA), Ha, Hb. simpl. rewrite convert_same; auto.
    + change (Prod E1 E2) with (node Times E1 E2).
      rewrite (Heq Times HA), Ha, Hb. simpl. rewrite convert_same; auto.
  - intros HA. split; [exact (Hnone Plus HA)|exact (Hnone Times HA)].
Qed.

Lemma evaluate_Sum_Prod_witness :
  evaluate (Sum (Arg Double) (Prod (Arg Double) (Arg Double))) (VDouble 3)
    = Some (VDouble 12) /\
  evaluate (Prod (Arg Double) (Prod (Arg Double) (Arg Double))) (VDouble 3)
    = Some (VDouble 27).
Proof.
  destruct (evaluate_Sum_Prod (Arg Double) (Prod (Arg Double) (Arg Double))
              Double (VDouble 3) eq_refl) as [H _].
  destruct (H eq_refl) as (_ & _ & Hab).
  destruct (Hab (VDouble 3) (VDouble 9) eq_refl eq_refl) as [Hs Hp].
  split; [exact (Hs eq_refl)|exact (Hp eq_refl)].
Defined.

(** Mixed types: two [int] arguments evaluated at a [double] are added as
    [int]s and the sum is returned as a [double]. *)
Example Sum_of_int_arguments_at_double :
  exists sum,
    Inline_at (Sum (Arg Int) (Arg Int)) Double = Some (Double, sum) /\
    sum (VDouble 0x1.4p+1) = VDouble 4.
Proof. eexists; split; reflexivity. Qed.

(** ** The square *)

(** C4.  The expression [x * x] built from the placeholder has the type
    [Prod<Arg<double>,Arg<double>>]; it resolves at [double], and at every
    [double] [v] the resolved function returns the very [double] [v * v]
    that [square] returns. *)
Theorem square_expression_at :
  type_of (binop Times x x) = Prod (Arg Double) (Arg Double) /\
  exists at_,
    Inline_at (type_of (binop Times x x)) Double = Some (Double, at_) /\
    forall v : float,
      at_ (VDouble v) = VDouble (PrimFloat.mul v v) /\
      at_ (VDouble v) = VDouble (square v).
Proof.
  split; [reflexivity|]. eexists; split; [reflexivity|].
  intros v; split; reflexivity.
Qed.

(** C5.  [integrate], instantiated with the type of [lambda(x, x * x)],
    builds, and for all [a], [b] and [n] it returns the same [double] as
    [integrate_fp] called with [square]: the two loops perform the same
    operations on the same values. *)
Theorem integrate_eq_integrate_fp_square :
  exists inlined,
    integrate (type_of (lambda x (binop Times x x))) = Some inlined /\
    forall (a b : float) (n : Z),
      inlined a b n = integrate_fp square a b n.
Proof.
  eexists; split.
  - apply (integrate_resolved _ Double); reflexivity.
  - intros a b n. apply integrate_fp_ext. intros v. reflexivity.
Qed.

(** Both loops end because [i] reached [n], not for lack of rounds. *)
Lemma integrate_fp_loop_complete f delta n s :
  i_ s = 0 -> (i_ (loop (Z.to_nat n) f delta n s) <? n) = false.
Proof. intros Hs. apply loop_exit. lia. Qed.

(** The program of [main] prints [0.333283]. *)
Example main_output : main_area = Some 0x1.55483a00819bp-2%float.
Proof. vm_compute. reflexivity. Qed.

(** ** Failure *)

(** C6, as stated, fails: this tree is built from [Arg] and [Sum] alone,
    its placeholder has the type of the argument it is meant for, and it
    resolves at no argument type.  The sum of two [Arg<double>] objects is
    a syntax tree, not an [Arg<double>], so the body of [at] cannot return
    it. *)
Lemma supported_shapes_unresolved :
  let X := Arg Double in
  let E := Sum (Arg X) (Arg X) in
  is_node E = true /\ has_constant E = false /\
  (exists at_, Inline_at (Arg X) X = Some (X, at_)) /\
  forall A, Inline_at E A = None.
Proof.
  split; [reflexivity|]. split; [reflexivity|]. split.
  - eexists; reflexivity.
  - intros A. destruct (Inline_at _ A) as [[R at_]|] eqn:H; [|reflexivity].
    pose proof (Inline_binary_arith Plus (Arg (Arg Double)) (Arg (Arg Double))
                  A R at_ H) as HA.
    assert (Hs : is_Some (Inline_at (Sum (Arg (Arg Double)) (Arg (Arg Double))) A))
      by (rewrite H; eexists; reflexivity).
    apply (Inline_at_arith_tree A HA) in Hs. discriminate.
Qed.

(** C6, amended.  A type that is not a node class has no resolution rule
    ([Inline] declares nothing for it) and resolving it fails at build
    time.  Over [Arg], [Sum] and [Prod], resolution at the argument type
    [A] succeeds exactly for a lone [Arg<X>] that [A] converts to, and for
    the trees of sums and products over arguments of arithmetic type when
    [A] is arithmetic; everything else fails at build time.  That is the
    only failure: a resolved function returns a value of its return type
    on every argument of type [A]. *)
Theorem Inline_failure_is_build_failure :
  (forall E A, is_node E = false ->
     Inline_members E = [] /\ Inline_at E A = None) /\
  (forall E A, has_constant E = false ->
     (is_Some (Inline_at E A) <-> resolvable E A = true)) /\
  (forall E A R at_, Inline_at E A = Some (R, at_) ->
     forall v, has_type v A = true -> has_type (at_ v) R = true).
Proof.
  split; [|split].
  - intros E A H. destruct E; try discriminate; split; reflexivity.
  - apply Inline_at_resolvable.
  - intros E. apply Inline_at_sound.
Qed.

Lemma Inline_failure_is_build_failure_witness :
  (Inline_members Double = [] /\ Inline_at Double Double = None) /\
  (is_Some (Inline_at (Prod (Arg Double) (Arg Double)) Double) <->
   resolvable (Prod (Arg Double) (Arg Double)) Double = true) /\
  (forall at_,
     Inline_at (Prod (Arg Double) (Arg Double)) Double = Some (Double, at_) ->
     has_type (at_ (VDouble 2)) Double = true).
Proof.
  destruct Inline_failure_is_build_failure as (H1 & H2 & H3).
  split; [|split].
  - apply H1. reflexivity.
  - apply H2. reflexivity.
  - intros at_ H. apply (H3 _ _ _ _ H). reflexivity.
Defined.

(** ** Termination *)



(** The recursive calls of [Inline_at] are the resolutions of the
    callees. *)
Lemma Inline_at_callees E E1 E2 A :
  callees E = [E1; E2] ->
  exists o, Inline_at E A = Inline_binary o (Inline_at E1 A) (Inline_at E2 A) A.
Proof.
  destruct E; try discriminate; intros H; inversion H; subst.
  - exists Plus. reflexivity.
  - exists Times. reflexivity.
Qed.

(** ** The combinators *)

(** C8.  The operators of [Exp<T>] return a value of type [Sum<T,M>],
    respectively [Prod<T,M>], where [M] is the type of the operand, and the
    value returned depends on no operand's value: two calls whose operands
    have the same type return the same result, whatever [this] and the
    operand hold. *)
Theorem Exp_operators_ignore_operands (T : type) (this1 m1 this2 m2 : value) :
  type_of m1 = type_of m2 ->
  has_type (Exp.operator_plus T this1 m1) (Sum T (type_of m1)) = true /\
  has_type (Exp.operator_times T this1 m1) (Prod T (type_of m1)) = true /\
  Exp.operator_plus T this1 m1 = Exp.operator_plus T this2 m2 /\
  Exp.operator_times T this1 m1 = Exp.operator_times T this2 m2.
Proof.
  intros Hm. unfold Exp.operator_plus, Exp.operator_times. rewrite Hm.
  repeat split; apply has_type_Dummy_value; reflexivity.
Qed.

Lemma Exp_operators_ignore_operands_witness :
  has_type (binop Plus x (VInt 1)) (Sum (Arg Double) Int) = true /\
  has_type (binop Times x (VInt 1)) (Prod (Arg Double) Int) = true /\
  binop Plus x (VInt 1) = binop Plus x (VInt 2) /\
  binop Times x (VInt 1) = binop Times x (VInt 2).
Proof.
  exact (Exp_operators_ignore_operands (Arg Double) x (VInt 1) x (VInt 2)
           eq_refl).
Defined.

(** C10.  For a left operand of any node class [T] and an operand of any
    type [M], [l + r] and [l * r] build, with the types [Sum<T,M>] and
    [Prod<T,M>], and so does a [lambda] around them.  When [M] is not a
    node class the combination is refused only where it is resolved:
    [Inline<Sum<T,M>>::at] and [Inline<Prod<T,M>>::at] build at no argument
    type, and [integrate] does not build for them. *)
Theorem Exp_operators_unchecked (T M : type) (l r : value) :
  is_node T = true -> has_type l T = true -> has_type r M = true ->
  binop_type Plus T M = Some (Sum T M) /\
  binop_type Times T M = Some (Prod T M) /\
  has_type (binop Plus l r) (Sum T M) = true /\
  has_type (binop Times l r) (Prod T M) = true /\
  has_type (lambda l (binop Plus l r)) (Sum T M) = true /\
  has_type (lambda l (binop Times l r)) (Prod T M) = true /\
  (is_node M = false ->
   (forall A, Inline_at (Sum T M) A = None /\ Inline_at (Prod T M) A = None) /\
   integrate (Sum T M) = None /\ integrate (Prod T M) = None).
Proof.
  intros HT Hl Hr.
  assert (HP : binop_type Plus T M = Some (Sum T M))
    by (unfold binop_type; rewrite HT; reflexivity).
  assert (HM : binop_type Times T M = Some (Prod T M))
    by (unfold binop_type; rewrite HT; reflexivity).
  pose proof (has_type_binop Plus l r T M _ Hl Hr HP) as H1.
  pose proof (has_type_binop Times l r T M _ Hl Hr HM) as H2.
  assert (Hno : is_node M = false ->
    forall A, Inline_at (Sum T M) A = None /\ Inline_at (Prod T M) A = None).
  { intros HnM A. simpl.
    assert (Inline_at M A = None) as -> by (destruct M; try discriminate; reflexivity).
    destruct (Inline_at T A) as [[? ?]|]; split; reflexivity. }
  repeat split; auto.
  - unfold lambda. rewrite (has_type_type_of _ _ H1).
    apply has_type_Dummy_value. reflexivity.
  - unfold lambda. rewrite (has_type_type_of _ _ H2).
    apply has_type_Dummy_value. reflexivity.
  - apply Hno; assumption.
  - apply Hno; assumption.
  - unfold integrate. destruct (Hno H Double) as [-> _]. reflexivity.
  - unfold integrate. destruct (Hno H Double) as [_ ->]. reflexivity.
Qed.

Lemma Exp_operators_unchecked_witness :
  binop_type Plus (Arg Double) Int = Some (Sum (Arg Double) Int) /\
  binop_type Times (Arg Double) Int = Some (Prod (Arg Double) Int) /\
  has_type (binop Plus x (VInt 1)) (Sum (Arg Double) Int) = true /\
  has_type (binop Times x (VInt 1)) (Prod (Arg Double) Int) = true /\
  has_type (lambda x (binop Plus x (VInt 1))) (Sum (Arg Double) Int) = true /\
  has_type (lambda x (binop Times x (VInt 1))) (Prod (Arg Double) Int) = true /\
  (is_node Int = false ->
   (forall A, Inline_at (Sum (Arg Double) Int) A = None /\
              Inline_at (Prod (Arg Double) Int) A = None) /\
   integrate (Sum (Arg Double) Int) = None /\
   integrate (Prod (Arg Double) Int) = None).
Proof.
  exact (Exp_operators_unchecked (Arg Double) Int x (VInt 1)
           eq_refl eq_refl eq_refl).
Defined.

(** ** Associativity *)





(** Where the addition of [double]s is not associative the two trees
    evaluate differently: with [b = v + v] and [c = v + (v + v)], at
    [v = 0x1.999999999999ap-4] (the [double] nearest to one tenth). *)
Example Sum_not_reassociated :
  let B := Sum (Arg Double) (Arg Double) in
  let C := Sum (Arg Double) B in
  exists left right,
    Inline_at (Sum (Sum (Arg Double) B) C) Double = Some (Double, left) /\
    Inline_at (Sum (Arg Double) (Sum B C)) Double = Some (Double, right) /\
    left (VDouble 0x1.999999999999ap-4) = VDouble 0x1.3333333333334p-1 /\
    right (VDouble 0x1.999999999999ap-4) = VDouble 0x1.3333333333333p-1.
Proof. do 2 eexists. repeat split. Qed.

(** * Further properties *)

(** ** Resolution *)

Lemma is_Some_Inline_binary o E1 E2 A :
  is_Some (Inline_binary o (Inline_at E1 A) (Inline_at E2 A) A) <->
  is_arith A = true /\ is_Some (Inline_at E1 A) /\ is_Some (Inline_at E2 A).
Proof.
  split.
  - intros [[R at_] H]. split; [eapply Inline_binary_arith; eauto|].
    apply Inline_binary_Some in H as (? & ? & ? & ? & ? & -> & -> & _).
    split; eexists; reflexivity.
  - intros (HA & [[R1 at1] H1] & [[R2 at2] H2]).
    rewrite H1, H2, Inline_binary_resolves;
      eauto using Inline_at_return_arith.
Qed.

(** X2.  A sum or a product resolves at [A] exactly when [A] is an
    arithmetic type and both operands resolve at [A]; so [Sum<E1,E2>]
    resolves exactly when [Prod<E1,E2>] does. *)
Theorem Inline_binary_resolves_iff (E1 E2 A : type) :
  (is_Some (Inline_at (Sum E1 E2) A) <->
   is_arith A = true /\ is_Some (Inline_at E1 A) /\ is_Some (Inline_at E2 A)) /\
  (is_Some (Inline_at (Prod E1 E2) A) <->
   is_arith A = true /\ is_Some (Inline_at E1 A) /\ is_Some (Inline_at E2 A)) /\
  (is_Some (Inline_at (Sum E1 E2) A) <-> is_Some (Inline_at (Prod E1 E2) A)).
Proof.
  pose proof (is_Some_Inline_binary Plus E1 E2 A) as HS.
  pose proof (is_Some_Inline_binary Times E1 E2 A) as HP.
  split; [exact HS|]. split; [exact HP|].
  simpl. rewrite HS, HP. reflexivity.
Qed.

(** X3.  An expression resolves at [int] exactly when it resolves at
    [double]. *)
Theorem Inline_at_Int_iff_Double (E : type) :
  is_Some (Inline_at E Int) <-> is_Some (Inline_at E Double).
Proof.
  rewrite (Inline_at_arith_tree Int eq_refl E).
  rewrite (Inline_at_arith_tree Double eq_refl E). reflexivity.
Qed.

(** X4.  An expression with a constant anywhere among its nodes resolves
    at no argument type, and [integrate] does not build for it. *)
Theorem Inline_at_constant (E : type) :
  has_constant E = true ->
  (forall A, Inline_at E A = None) /\ integrate E = None.
Proof.
  intros HE.
  assert (H : forall A, Inline_at E A = None).
  { intros A. induction E; try discriminate.
    - reflexivity.
    - simpl in *. apply orb_true_iff in HE as [HE|HE].
      + rewrite (IHE1 HE). reflexivity.
      + rewrite (IHE2 HE). destruct (Inline_at E1 A) as [[? ?]|]; reflexivity.
    - simpl in *. apply orb_true_iff in HE as [HE|HE].
      + rewrite (IHE1 HE). reflexivity.
      + rewrite (IHE2 HE). destruct (Inline_at E1 A) as [[? ?]|]; reflexivity. }
  split; [exact H|]. unfold integrate. rewrite H. reflexivity.
Qed.

Lemma Inline_at_constant_witness :
  (forall A, Inline_at (Prod (Arg Double) (Sum (I 2) (Arg Double))) A = None) /\
  integrate (Prod (Arg Double) (Sum (I 2) (Arg Double))) = None.
Proof.
  exact (Inline_at_constant (Prod (Arg Double) (Sum (I 2) (Arg Double)))
           eq_refl).
Defined.

(** ** Expansion *)

Lemma binop_type_arith o A :
  is_arith A = true -> binop_type o A A = Some A.
Proof. destruct A; try discriminate; reflexivity. Qed.

(** X5.  When every placeholder of the expression has the type [A] of the
    argument and [A] is arithmetic, the expression resolves to a function
    from [A] to [A] that computes what the expression written by hand
    computes: the conversions of the resolution all vanish. *)
Theorem Inline_at_written_out (E A : type) :
  is_arith A = true -> placeholders_of A E = true ->
  exists at_E,
    Inline_at E A = Some (A, at_E) /\
    forall v, has_type v A = true -> at_E v = written_out E v.
Proof.
  intros HA.
  assert (Hbin : forall o E1 E2,
    (exists at1, Inline_at E1 A = Some (A, at1) /\
       forall v, has_type v A = true -> at1 v = written_out E1 v) ->
    (exists at2, Inline_at E2 A = Some (A, at2) /\
       forall v, has_type v A = true -> at2 v = written_out E2 v) ->
    exists at_E,
      Inline_binary o (Inline_at E1 A) (Inline_at E2 A) A = Some (A, at_E) /\
      forall v, has_type v A = true ->
        at_E v = binop o (written_out E1 v) (written_out E2 v)).
  { intros o E1 E2 (at1 & H1 & Hv1) (at2 & H2 & Hv2).
    rewrite H1, H2, Inline_binary_resolves by assumption.
    eexists; split; [reflexivity|]. intros v Hv. cbv beta.
    pose proof (Inline_at_sound _ _ _ _ H1 v Hv) as Ht1.
    pose proof (Inline_at_sound _ _ _ _ H2 v Hv) as Ht2.
    rewrite convert_same.
    - rewrite (Hv1 v Hv), (Hv2 v Hv). reflexivity.
    - apply has_type_type_of.
      apply (has_type_binop o _ _ A A); auto using binop_type_arith. }
  induction E; intros HE; try discriminate.
  - simpl in HE. apply bool_decide_eq_true in HE. subst E.
    simpl. rewrite convertible_refl. eexists; split; [reflexivity|].
    intros v Hv. apply convert_same, has_type_type_of, Hv.
  - simpl in HE. apply andb_true_iff in HE as [HE1 HE2].
    apply (Hbin Plus); auto.
  - simpl in HE. apply andb_true_iff in HE as [HE1 HE2].
    apply (Hbin Times); auto.
Qed.

Lemma Inline_at_written_out_witness :
  exists at_E,
    Inline_at (Sum (Arg Int) (Prod (Arg Int) (Arg Int))) Int
      = Some (Int, at_E) /\
    at_E (VInt 5) = VInt 30.
Proof.
  destruct (Inline_at_written_out (Sum (Arg Int) (Prod (Arg Int) (Arg Int)))
              Int eq_refl eq_refl) as (at_E & H & Hv).
  exists at_E. split; [exact H|].
  rewrite (Hv (VInt 5) eq_refl). reflexivity.
Defined.

(** On [double]s the resolved function is [by_hand]. *)
Lemma Inline_at_by_hand E :
  placeholders_of Double E = true ->
  exists at_E,
    Inline_at E Double = Some (Double, at_E) /\
    forall d, at_E (VDouble d) = VDouble (by_hand E d).
Proof.
  induction E; intros HE; try discriminate; simpl in HE.
  - apply bool_decide_eq_true in HE. subst E.
    eexists; split; reflexivity.
  - apply andb_true_iff in HE as [HE1 HE2].
    destruct (IHE1 HE1) as (at1 & H1 & Hd1).
    destruct (IHE2 HE2) as (at2 & H2 & Hd2).
    simpl. rewrite H1, H2, Inline_binary_resolves by reflexivity.
    eexists; split; [reflexivity|]. intros d. cbv beta.
    rewrite Hd1, Hd2. reflexivity.
  - apply andb_true_iff in HE as [HE1 HE2].
    destruct (IHE1 HE1) as (at1 & H1 & Hd1).
    destruct (IHE2 HE2) as (at2 & H2 & Hd2).
    simpl. rewrite H1, H2, Inline_binary_resolves by reflexivity.
    eexists; split; [reflexivity|]. intros d. cbv beta.
    rewrite Hd1, Hd2. reflexivity.
Qed.

(** ** The integration loops *)

(** X7.  [integrate<F>] builds exactly when [Inline<F>::at] resolves on a
    [double], and then it is [integrate_fp] on the resolved function: the
    two loops agree for every expression, not only for the square. *)
Theorem integrate_is_integrate_fp (F : type) :
  (is_Some (integrate F) <-> is_Some (Inline_at F Double)) /\
  (forall R at_F, Inline_at F Double = Some (R, at_F) ->
     integrate F =
     Some (integrate_fp (fun x => to_double (at_F (VDouble x))))).
Proof.
  assert (H : forall R at_F, Inline_at F Double = Some (R, at_F) ->
     integrate F =
     Some (integrate_fp (fun x => to_double (at_F (VDouble x))))).
  { intros R at_F HF. apply (integrate_resolved F R); [exact HF|].
    apply (Inline_at_return_arith F Double R at_F eq_refl HF). }
  split; [|exact H]. split.
  - unfold integrate. destruct (Inline_at F Double) as [[R at_F]|].
    + intros _. eexists; reflexivity.
    + intros [? ?]; discriminate.
  - intros [[R at_F] HF]. rewrite (H R at_F HF). eexists; reflexivity.
Qed.

Lemma integrate_is_integrate_fp_witness :
  integrate (Sum (Arg Int) (Arg Double)) =
  Some (integrate_fp (fun x =>
    to_double (convert Double
      (binop Plus (convert Int (VDouble x)) (convert Double (VDouble x)))))).
Proof.
  exact (proj2 (integrate_is_integrate_fp (Sum (Arg Int) (Arg Double)))
           Double _ eq_refl).
Defined.

(** X8.  For an expression whose placeholders are all [Arg<double>],
    [integrate] builds and returns, for all [a], [b] and [n], the [double]
    that [integrate_fp] returns for the function written by hand. *)
Theorem integrate_eq_integrate_fp_by_hand (F : type) :
  placeholders_of Double F = true ->
  exists inlined,
    integrate F = Some inlined /\
    forall a b n, inlined a b n = integrate_fp (by_hand F) a b n.
Proof.
  intros HF.
  destruct (Inline_at_by_hand F HF) as (at_F & H & Hd).
  eexists; split.
  - apply (integrate_resolved F Double at_F H eq_refl).
  - intros a b n. apply integrate_fp_ext. intros d.
    rewrite (Hd d). reflexivity.
Qed.

Lemma integrate_eq_integrate_fp_by_hand_witness :
  exists inlined,
    integrate (Sum (Arg Double) (Prod (Arg Double) (Arg Double)))
      = Some inlined /\
    forall a b n,
      inlined a b n =
      integrate_fp (fun x => PrimFloat.add x (PrimFloat.mul x x)) a b n.
Proof.
  exact (integrate_eq_integrate_fp_by_hand
           (Sum (Arg Double) (Prod (Arg Double) (Arg Double))) eq_refl).
Defined.

(** X9.  With [n <= 0] the loops make no round and both functions return
    [0.0], whatever the integrand and the bounds; for [n = 0] the division
    [(b - a) / n] is made and its result never used. *)
Theorem integrate_no_round (n : Z) :
  n <= 0 ->
  (forall f a b, integrate_fp f a b n = PrimFloat.zero) /\
  (forall F inlined, integrate F = Some inlined ->
     forall a b, inlined a b n = PrimFloat.zero).
Proof.
  intros Hn.
  assert (Hfuel : Z.to_nat n = O) by lia.
  split.
  - intros f a b. unfold integrate_fp. rewrite Hfuel. reflexivity.
  - intros F inlined HF a b. unfold integrate in HF.
    destruct (Inline_at F Double) as [[R at_F]|]; [|discriminate].
    simpl in HF. destruct (convertible R Double); [|discriminate].
    inversion HF; subst. rewrite Hfuel. reflexivity.
Qed.

Lemma integrate_no_round_witness :
  (forall f a b, integrate_fp f a b 0 = PrimFloat.zero) /\
  (forall F inlined, integrate F = Some inlined ->
     forall a b, inlined a b 0 = PrimFloat.zero).
Proof. apply (integrate_no_round 0). lia. Defined.

(** The area after [k] more rounds, when [k] rounds are left. *)
Lemma loop_area f delta n :
  forall k s, Z.of_nat k = n - i_ s ->
    area_ (loop k f delta n s) =
    fold_left (fun area x => PrimFloat.add area (PrimFloat.mul (f x) delta))
              (sample_points k (x_ s) delta) (area_ s).
Proof.
  induction k as [|k IH]; intros s Hk; simpl.
  - reflexivity.
  - assert (Hi : (i_ s <? n) = true) by (apply Z.ltb_lt; lia).
    rewrite Hi, IH by (simpl; lia). reflexivity.
Qed.

Lemma length_sample_points k :
  forall x delta, length (sample_points k x delta) = k.
Proof.
  induction k as [|k IH]; intros x0 delta; simpl; [|rewrite IH]; reflexivity.
Qed.

(** X10.  [integrate_fp] returns the sum, in order, of the rectangles
    [f(x) * delta] over the [n] points [a], [a + delta],
    [(a + delta) + delta], ... (each the previous one plus [delta], the
    last one before [b]), with [delta = (b - a) / n]. *)
Theorem integrate_fp_rectangle_sum (f : float -> float) (a b : float) (n : Z) :
  let delta := PrimFloat.div (PrimFloat.sub b a) (int_to_double n) in
  integrate_fp f a b n =
  rectangle_sum f delta (sample_points (Z.to_nat n) a delta) /\
  length (sample_points (Z.to_nat n) a delta) = Z.to_nat n.
Proof.
  cbv zeta. split.
  - unfold integrate_fp, rectangle_sum. cbv zeta.
    destruct (Z.leb_spec n 0) as [Hn|Hn].
    + replace (Z.to_nat n) with O by lia. reflexivity.
    + rewrite loop_area by (simpl; lia). reflexivity.
  - apply length_sample_points.
Qed.
